(** * tool-tmplt, package [files]: file access and format conversion

    A shallow embedding of [src/files/files.go]: the [Dir] accessor ([Get],
    [Glob]), the [Files] collection ([AsConfig], [AsSecrets]) and the five
    conversion functions ([ToYaml], [FromYaml], [ToToml], [ToJson],
    [FromJson]).

    The package is a thin layer over Go packages that are not part of the
    repository: [gopkg.in/yaml.v2], [encoding/json], [github.com/BurntSushi/toml],
    [path/filepath], [io/ioutil], [encoding/base64] and [glog].  The functions
    of [files.go] are written against an interface of those packages
    ([GoError], [Codecs], [FileSystem]); [filepath.Base] and the Base64
    encoder, on which the shape of the produced maps depends, are written out. *)

From Stdlib Require Import ZArith NArith String Ascii List Lia.
From Stdlib Require Import DecimalString DecimalN DecimalFacts.
From stdpp Require Import base option list sorting gmap strings.

#[local] Set Warnings "-register-all".
#[local] Open Scope string_scope.

(** ** Control flow

    A Go call returns, panics, or ends the process ([glog.Exitf]). *)

Inductive outcome (A : Type) : Type :=
  | Done (a : A)
  | Panics (msg : string)
  | Exits (msg : string).
Arguments Done {A} a.
Arguments Panics {A} msg.
Arguments Exits {A} msg.

Definition obind {A B : Type} (o : outcome A) (k : A → outcome B) : outcome B :=
  match o with
  | Done a => k a
  | Panics msg => Panics msg
  | Exits msg => Exits msg
  end.

Notation "'do' x <- o ; k" := (obind o (λ x, k))
  (at level 10, x pattern, o at level 100, k at level 200).

(** ** Go values

    What an [interface{}] handed to an encoder, or produced by a decoder, can
    hold.  [VFloat z] is the [float64] whose value is the integer [z];
    [VChan] stands for a channel, which none of the three formats can
    represent.  A [map[string]interface{}] is a finite map; the [nil] map is
    [None] (see [gomap]). *)

Inductive value : Type :=
  | VNil
  | VBool (b : bool)
  | VInt (z : Z)
  | VFloat (z : Z)
  | VString (s : string)
  | VSeq (l : list value)
  | VMap (m : gmap string value)
  | VChan.

(** A Go map variable: [None] is the [nil] map. *)
Abbreviation gomap V := (option (gmap string V)).

(** [type Files map[string]string] *)
Abbreviation Files := (option (gmap string string)).

(** [type Dir string] *)
Abbreviation Dir := string (only parsing).

(** A [map[string]string] seen as an [interface{}]. *)
Definition of_strings (m : gmap string string) : value := VMap (VString <$> m).

(** ** The packages [files.go] imports *)

(** Go's [error] interface. *)
Class GoError := {
  error : Type;
  Error : error → string;
}.

(** [yaml.Marshal], [yaml.Unmarshal], [toml.Encoder.Encode] on a fresh
    buffer, [json.Marshal], [json.Unmarshal].  The decoders receive the
    address of the map variable: they take its content and give back the
    content they leave in it. *)
Class Codecs `{GoError} := {
  yaml_Marshal : value → outcome (string * option error);
  yaml_Unmarshal : string → gomap value → outcome (gomap value * option error);
  toml_Encode : value → outcome (string * option error);
  json_Marshal : value → outcome (string * option error);
  json_Unmarshal : string → gomap value → outcome (gomap value * option error);
}.

(** [filepath.Join], [filepath.Glob], [ioutil.ReadFile]. *)
Class FileSystem `{GoError} := {
  filepath_Join : string → string → string;
  filepath_Glob : string → list string * option error;
  ioutil_ReadFile : string → string * option error;
}.

(** [for k, v := range f]: Go visits the entries of a map in an order it does
    not specify.  A [range_order] is one way to enumerate every map. *)
Record range_order := {
  range : gmap string string → list (string * string);
  range_perm : ∀ m, range m ≡ₚ map_to_list m;
}.

(** ** [path/filepath.Base] (Unix) *)

Definition os_IsPathSeparator (c : ascii) : bool := Ascii.eqb c "/"%char.

(** [for len(path) > 0 && os.IsPathSeparator(path[len(path)-1])
     { path = path[0 : len(path)-1] }], on the reversed path. *)
Fixpoint strip_leading_separators (rpath : list ascii) : list ascii :=
  match rpath with
  | c :: rest => if os_IsPathSeparator c then strip_leading_separators rest else rpath
  | [] => []
  end.

(** [for i >= 0 && !os.IsPathSeparator(path[i]) { i-- }; path = path[i+1:]],
    on the reversed path. *)
Fixpoint until_separator (rpath : list ascii) : list ascii :=
  match rpath with
  | c :: rest => if os_IsPathSeparator c then [] else c :: until_separator rest
  | [] => []
  end.

Definition filepath_Base (path : string) : string :=
  if String.eqb path "" then "."
  else
    let path := strip_leading_separators (rev (list_ascii_of_string path)) in
    let path := until_separator path in
    match path with
    | [] => "/"
    | _ => string_of_list_ascii (rev path)
    end.

(** ** [encoding/base64.StdEncoding.EncodeToString] *)

Definition encodeStd : string :=
  "ABCDEFGHIJKLMNOPQRSTUVWXYZabcdefghijklmnopqrstuvwxyz0123456789+/".

(** [enc.encode[val>>shift&0x3F]] *)
Definition sextet (val : N) (shift : N) : ascii :=
  match String.get (N.to_nat (N.land (N.shiftr val shift) 63)) encodeStd with
  | Some c => c
  | None => "="%char
  end.

Fixpoint base64_Encode (src : string) : string :=
  match src with
  | String b0 (String b1 (String b2 rest)) =>
      let val := N.lor (N.lor (N.shiftl (N_of_ascii b0) 16) (N.shiftl (N_of_ascii b1) 8))
                       (N_of_ascii b2) in
      String (sextet val 18) (String (sextet val 12) (String (sextet val 6)
        (String (sextet val 0) (base64_Encode rest))))
  | String b0 (String b1 EmptyString) =>
      let val := N.lor (N.shiftl (N_of_ascii b0) 16) (N.shiftl (N_of_ascii b1) 8) in
      String (sextet val 18) (String (sextet val 12) (String (sextet val 6) "="))
  | String b0 EmptyString =>
      let val := N.shiftl (N_of_ascii b0) 16 in
      String (sextet val 18) (String (sextet val 12) "==")
  | EmptyString => ""
  end.

Definition base64_EncodeToString (src : string) : string := base64_Encode src.

(** ** [files.go] *)

Section files.
Context `{Codecs} `{!FileSystem}.

(** [func (dir Dir) Get(name string) string] *)
Definition Get (dir : Dir) (name : string) : outcome string :=
  let p := filepath_Join dir name in
  match ioutil_ReadFile p with
  | (_, Some err) => Exits ("Files.Get failed: " +:+ Error err)
  | (b, None) => Done b
  end.

(** The loop of [Glob]: [for _, f := range fs { ... m[f] = string(b) }]. *)
Fixpoint Glob_range (pattern : string) (fs : list string) (m : gmap string string)
  : outcome (gmap string string) :=
  match fs with
  | [] => Done m
  | f :: fs =>
      match ioutil_ReadFile f with
      | (_, Some err) =>
          Exits ("Files.Glob " +:+ pattern +:+ " failed: " +:+ Error err)
      | (b, None) => Glob_range pattern fs (<[f := b]> m)
      end
  end.

(** [func (dir Dir) Glob(pattern string) Files] *)
Definition Glob (dir : Dir) (pattern : string) : outcome Files :=
  let p := filepath_Join dir pattern in
  match filepath_Glob p with
  | (_, Some err) =>
      Exits ("Files.Glob " +:+ pattern +:+ " failed: " +:+ Error err)
  | (fs, None) =>
      (* m := make(Files, 0) *)
      do m <- Glob_range pattern fs ∅;
      Done (Some m)
  end.

(** [func ToYaml(v interface{}) string] *)
Definition ToYaml (v : value) : outcome string :=
  do r <- yaml_Marshal v;
  match r with
  | (_, Some err) => Done ""
  | (data, None) => Done data
  end.

(** [m["Error"] = err.Error()]: assignment to an entry of a [nil] map panics. *)
Definition set_Error (m : gomap value) (err : error) : outcome (gomap value) :=
  match m with
  | Some m => Done (Some (<["Error" := VString (Error err)]> m))
  | None => Panics "assignment to entry in nil map"
  end.

(** [func FromYaml(str string) map[string]interface{}] *)
Definition FromYaml (str : string) : outcome (gomap value) :=
  let m := Some ∅ in
  do r <- yaml_Unmarshal str m;
  match r with
  | (m, Some err) => set_Error m err
  | (m, None) => Done m
  end.

(** [func ToToml(v interface{}) string] *)
Definition ToToml (v : value) : outcome string :=
  do r <- toml_Encode v;
  match r with
  | (_, Some err) => Done (Error err)
  | (b, None) => Done b
  end.

(** [func ToJson(v interface{}) string] *)
Definition ToJson (v : value) : outcome string :=
  do r <- json_Marshal v;
  match r with
  | (_, Some err) => Done ""
  | (data, None) => Done data
  end.

(** [func FromJson(str string) map[string]interface{}] *)
Definition FromJson (str : string) : outcome (gomap value) :=
  let m := Some ∅ in
  do r <- json_Unmarshal str m;
  match r with
  | (m, Some err) => set_Error m err
  | (m, None) => Done m
  end.

(** The loop of [AsConfig]: [for k, v := range f { m[filepath.Base(k)] = string(v) }]. *)
Definition AsConfig_range (kvs : list (string * string)) : gmap string string :=
  foldl (λ m kv, <[filepath_Base kv.1 := kv.2]> m) ∅ kvs.

(** [func (f Files) AsConfig() string] *)
Definition AsConfig (ord : range_order) (f : Files) : outcome string :=
  match f with
  | None => Done ""
  | Some f =>
      let m := AsConfig_range (range ord f) in
      ToYaml (of_strings m)
  end.

(** The loop of [AsSecrets]:
    [for k, v := range f { m[filepath.Base(k)] = string(base64.StdEncoding.EncodeToString([]byte(v))) }]. *)
Definition AsSecrets_range (kvs : list (string * string)) : gmap string string :=
  foldl (λ m kv, <[filepath_Base kv.1 := base64_EncodeToString kv.2]> m) ∅ kvs.

(** [func (f Files) AsSecrets() string] *)
Definition AsSecrets (ord : range_order) (f : Files) : outcome string :=
  match f with
  | None => Done ""
  | Some f =>
      let m := AsSecrets_range (range ord f) in
      ToYaml (of_strings m)
  end.
End files.

(** * The imported packages on a fragment of their inputs

    The statements about concrete texts ("the YAML of the empty map",
    "the result of parsing [Error: msg]") need the behaviour of the imported
    packages.  The definitions below follow the packages on a delimited
    fragment of their inputs, described with each function; on any other
    input they answer [NotModelled], and no statement of this file evaluates
    them there. *)

(** Line feed and the double quote. *)
Definition LF : ascii := "010"%char.
Definition DQ : ascii := "034"%char.
Definition nl : string := String LF "".
Definition dq : string := String DQ "".

(** The error values of the packages, with their [Error] methods. *)
Inductive go_error : Type :=
  | yamlError (msg : string)                       (* yaml.v2: failf *)
  | yaml_TypeError (Errors : list string)          (* yaml.v2: *TypeError *)
  | json_SyntaxError (msg : string)                (* encoding/json: *SyntaxError *)
  | json_UnmarshalTypeError (Value Typ : string)  (* encoding/json: *UnmarshalTypeError *)
  | json_UnsupportedTypeError (Typ : string)      (* encoding/json: *UnsupportedTypeError *)
  | errors_New (text : string)                     (* errors.New *)
  | os_PathError (Op Path Err : string)            (* os: *PathError *)
  | NotModelled.

(** [strings.Join] *)
Fixpoint strings_Join (elems : list string) (sep : string) : string :=
  match elems with
  | [] => ""
  | [e] => e
  | e :: elems => e +:+ sep +:+ strings_Join elems sep
  end.

Definition go_error_Error (e : go_error) : string :=
  match e with
  | yamlError msg => "yaml: " +:+ msg
  | yaml_TypeError errs =>
      "yaml: unmarshal errors:" +:+ nl +:+ "  " +:+ strings_Join errs (nl +:+ "  ")
  | json_SyntaxError msg => msg
  | json_UnmarshalTypeError v t =>
      "json: cannot unmarshal " +:+ v +:+ " into Go value of type " +:+ t
  | json_UnsupportedTypeError t => "json: unsupported type: " +:+ t
  | errors_New text => text
  | os_PathError op path err => op +:+ " " +:+ path +:+ ": " +:+ err
  | NotModelled => "(outside the modelled fragment)"
  end.

#[global] Instance go_errors : GoError := {| error := go_error; Error := go_error_Error |}.

(** ** Characters and text *)

Definition in_range (lo hi : N) (c : ascii) : bool :=
  (lo <=? N_of_ascii c)%N && (N_of_ascii c <=? hi)%N.

Definition is_digit (c : ascii) : bool := in_range 48 57 c.
Definition is_letter (c : ascii) : bool := in_range 65 90 c || in_range 97 122 c.
(** Printable ASCII, the space included. *)
Definition is_printable (c : ascii) : bool := in_range 32 126 c.
Definition is_space (c : ascii) : bool := Ascii.eqb c " "%char.

Fixpoint string_forallb (p : ascii → bool) (s : string) : bool :=
  match s with
  | EmptyString => true
  | String c s => p c && string_forallb p s
  end.

Definition string_existsb (p : ascii → bool) (s : string) : bool :=
  negb (string_forallb (λ c, negb (p c)) s).

Definition string_in (s : string) (l : list string) : bool :=
  existsb (String.eqb s) l.

(** The longest prefix whose characters satisfy [p], and the rest. *)
Fixpoint span (p : ascii → bool) (s : string) : string * string :=
  match s with
  | EmptyString => ("", "")
  | String c s' =>
      if p c then let '(a, b) := span p s' in (String c a, b) else ("", s)
  end.

(** [strings.Split(s, sep)] for a one-character separator. *)
Fixpoint split_on (sep : ascii) (s : string) : list string :=
  match s with
  | EmptyString => [""]
  | String c s' =>
      let r := split_on sep s' in
      if Ascii.eqb c sep then "" :: r
      else match r with
           | p :: ps => String c p :: ps
           | [] => [String c ""]
           end
  end.

Definition last_char (s : string) : option ascii :=
  match rev (list_ascii_of_string s) with
  | c :: _ => Some c
  | [] => None
  end.

(** [strconv.Itoa] and the decimal numerals. *)
Definition decimal (n : N) : string := NilEmpty.string_of_uint (N.to_uint n).

Definition strconv_Itoa (z : Z) : string :=
  if (z <? 0)%Z then "-" +:+ decimal (Z.abs_N z) else decimal (Z.abs_N z).

Definition parse_decimal (s : string) : option N :=
  match s with
  | EmptyString => None
  | _ => N.of_uint <$> NilEmpty.uint_of_string s
  end.

(** ** [gopkg.in/yaml.v2]

    Fragment.  [Marshal]: a value that holds a channel, a scalar, or a map
    with at most one entry whose value is a scalar; strings are printable
    ASCII that start with a letter and are not one of the words of the
    resolution table.  [Unmarshal]: a text of printable ASCII characters and
    line feeds, in lines of at most 1000 characters, that is empty, [{}],
    one scalar or flow sequence, or lines [key: value] whose keys and values
    are plain scalars, single-quoted scalars or flow sequences of plain
    scalars. *)

Module yaml.

(** *** resolve.go *)

Definition true_words : list string :=
  ["y"; "Y"; "yes"; "Yes"; "YES"; "on"; "On"; "ON"; "true"; "True"; "TRUE"].
Definition false_words : list string :=
  ["n"; "N"; "no"; "No"; "NO"; "off"; "Off"; "OFF"; "false"; "False"; "FALSE"].
Definition null_words : list string := [""; "~"; "null"; "Null"; "NULL"].

(** A decimal numeral without sign and without a leading zero, short enough
    for an [int]. *)
Definition is_int_literal (s : string) : bool :=
  match s with
  | String c rest =>
      is_digit c && string_forallb is_digit rest
      && (negb (Ascii.eqb c "0") || String.eqb rest "")
      && (String.length s <=? 18)%nat
  | EmptyString => false
  end.

(** [resolve("", in)]: the tag and the value of a plain scalar. *)
Definition resolve (s : string) : option (string * value) :=
  if string_in s null_words then Some ("!!null", VNil)
  else if string_in s true_words then Some ("!!bool", VBool true)
  else if string_in s false_words then Some ("!!bool", VBool false)
  else match s with
       | String c _ =>
           if is_letter c then Some ("!!str", VString s)
           else if is_int_literal s
                then (λ n, ("!!int", VInt (Z.of_N n))) <$> parse_decimal s
                else None
       | EmptyString => None
       end.

(** *** The emitter *)

(** [yaml_emitter_analyze_scalar], past the first character: a colon
    followed by a blank or by the end, or a hash preceded by a blank, rules
    out the plain style in a block. *)
Fixpoint block_indicators (preceded_by_whitespace : bool) (s : string) : bool :=
  match s with
  | EmptyString => false
  | String c rest =>
      let followed_by_whitespace :=
        match rest with EmptyString => true | String d _ => is_space d end in
      Ascii.eqb c ":" && followed_by_whitespace
      || Ascii.eqb c "#" && preceded_by_whitespace
      || block_indicators (is_space c) rest
  end.

Definition trailing_space (s : string) : bool :=
  match last_char s with Some c => is_space c | None => false end.

(** The strings of the fragment. *)
Definition modelled_string (s : string) : bool :=
  match s with
  | String c _ =>
      is_letter c && string_forallb is_printable s
      && negb (string_in s true_words) && negb (string_in s false_words)
      && negb (string_in s null_words)
  | EmptyString => false
  end.

(** [yaml_emitter_write_single_quoted]: a quote is written twice. *)
Fixpoint write_single_quoted (s : string) : string :=
  match s with
  | EmptyString => ""
  | String c rest =>
      if Ascii.eqb c "'" then String c (String c (write_single_quoted rest))
      else String c (write_single_quoted rest)
  end.

(** [encoder.stringv] asks for the plain style (the string resolves to
    itself and has no line break); [yaml_emitter_select_scalar_style] falls
    back to single quotes where the plain style is not allowed. *)
Definition emit_string (s : string) : option string :=
  if modelled_string s then
    if block_indicators true s || trailing_space s
    then Some ("'" +:+ write_single_quoted s +:+ "'")
    else Some s
  else None.

Definition emit_scalar (v : value) : option string :=
  match v with
  | VNil => Some "null"
  | VBool true => Some "true"
  | VBool false => Some "false"
  | VInt z => Some (strconv_Itoa z)
  | VString s => emit_string s
  | _ => None
  end.

(** The emitter folds a scalar at a space once the column passes 80. *)
Definition line_fits (k x : string) : bool :=
  (String.length k + String.length x <=? 70)%nat
  || negb (string_existsb is_space k || string_existsb is_space x).

(** A channel, at any depth. *)
Fixpoint has_chan (v : value) : bool :=
  match v with
  | VChan => true
  | VSeq l => existsb has_chan l
  | VMap m => map_fold (λ _ (b acc : bool), b || acc) false (has_chan <$> m)
  | _ => false
  end.

(** [yaml.Marshal].  [encoder.marshal] panics on a kind it does not know,
    with a value that [handleErr] does not recover. *)
Definition Marshal (v : value) : outcome (string * option go_error) :=
  if has_chan v then Panics "cannot marshal type: chan int" else
  match v with
  | VMap m =>
      match map_to_list m with
      | [] => Done ("{}" +:+ nl, None)
      | [(k, x)] =>
          match emit_string k, emit_scalar x with
          | Some ks, Some xs =>
              if line_fits ks xs && (String.length ks <=? 120)%nat
              then Done (ks +:+ ": " +:+ xs +:+ nl, None)
              else Done ("", Some NotModelled)
          | _, _ => Done ("", Some NotModelled)
          end
      | _ => Done ("", Some NotModelled)
      end
  | _ =>
      match emit_scalar v with
      | Some s =>
          if line_fits "" s then Done (s +:+ nl, None) else Done ("", Some NotModelled)
      | None => Done ("", Some NotModelled)
      end
  end.

(** *** The parser: text to nodes *)

Inductive node : Type :=
  | scalarNode (implicit : bool) (value : string) (line : nat)
  | sequenceNode (children : list node) (line : nat).

Inductive document : Type :=
  | no_document
  | root_node (n : node)
  | root_mapping (children : list (node * node)).

Inductive scanned (A : Type) : Type :=
  | Scanned (a : A)
  | ScannerError (problem : string) (line : nat)
  | Unscanned.
Arguments Scanned {A} a.
Arguments ScannerError {A} problem line.
Arguments Unscanned {A}.

Definition plain_char (c : ascii) : bool :=
  is_letter c || is_digit c || string_existsb (Ascii.eqb c) "._-/=+".

(** A plain scalar without blanks. *)
Definition plain_token (s : string) : bool :=
  match s with
  | String c _ =>
      (is_letter c || is_digit c) && string_forallb plain_char s
      && bool_decide (is_Some (resolve s))
  | EmptyString => false
  end.

(** The text of a single-quoted scalar after its opening quote, and what
    follows the closing quote. *)
Fixpoint single_quoted (s : string) : option (string * string) :=
  match s with
  | EmptyString => None
  | String c rest =>
      if Ascii.eqb c "'" then
        match rest with
        | String d rest' =>
            if Ascii.eqb d "'"
            then (λ r, (String "'" r.1, r.2)) <$> single_quoted rest'
            else Some ("", rest)
        | EmptyString => Some ("", "")
        end
      else if is_printable c
           then (λ r, (String c r.1, r.2)) <$> single_quoted rest
           else None
  end.

Definition strip_space (s : string) : string :=
  match s with
  | String c rest => if is_space c then rest else s
  | EmptyString => s
  end.

(** The items between the brackets of a flow sequence. *)
Definition flow_items (inner : string) (line : nat) : option (list node) :=
  if String.eqb inner "" then Some []
  else
    mapM (λ item, if plain_token item then Some (scalarNode true item line) else None)
         (strip_space <$> split_on "," inner).

(** A key, or a whole node that starts a line, and the rest of the line. *)
Definition parse_key (s : string) (line : nat) : option (node * string) :=
  match s with
  | String c rest =>
      if Ascii.eqb c "'" then
        (λ r, (scalarNode false r.1 line, r.2)) <$> single_quoted rest
      else if Ascii.eqb c "[" then
        let '(inner, rest') := span (λ d, negb (Ascii.eqb d "]")) rest in
        match rest' with
        | String _ rest'' =>
            (λ items, (sequenceNode items line, rest'')) <$> flow_items inner line
        | EmptyString => None
        end
      else
        let '(tok, rest') := span plain_char s in
        if plain_token tok then Some (scalarNode true tok line, rest') else None
  | EmptyString => None
  end.

Fixpoint blank_hash (s : string) : bool :=
  match s with
  | String c (String d _ as rest) => is_space c && Ascii.eqb d "#" || blank_hash rest
  | _ => false
  end.

(** The value after [key: ].  A plain scalar ends at a colon that is
    followed by a blank; a second value on the line is the scanner's
    "mapping values are not allowed in this context". *)
Definition parse_value (s : string) (line : nat) : scanned node :=
  match s with
  | EmptyString => Scanned (scalarNode true "" line)
  | String c rest =>
      if Ascii.eqb c "'" then
        match single_quoted rest with
        | Some (v, EmptyString) => Scanned (scalarNode false v line)
        | _ => Unscanned
        end
      else if Ascii.eqb c "[" then
        match parse_key s line with
        | Some (n, EmptyString) => Scanned n
        | _ => Unscanned
        end
      else if is_letter c || is_digit c then
        if blank_hash s then Unscanned
        else if block_indicators true s
             then ScannerError "mapping values are not allowed in this context" line
        else if string_forallb (λ d, plain_char d || is_space d) s
                && negb (trailing_space s) && bool_decide (is_Some (resolve s))
             then Scanned (scalarNode true s line)
        else Unscanned
      else Unscanned
  end.

Definition parse_line (s : string) (line : nat) : scanned (node * node) :=
  match parse_key s line with
  | Some (k, rest) =>
      match rest with
      | String c EmptyString =>
          if Ascii.eqb c ":" then Scanned (k, scalarNode true "" line) else Unscanned
      | String c (String d v) =>
          if Ascii.eqb c ":" && is_space d then
            match parse_value v line with
            | Scanned n => Scanned (k, n)
            | ScannerError problem l => ScannerError problem l
            | Unscanned => Unscanned
            end
          else Unscanned
      | EmptyString => Unscanned
      end
  | None => Unscanned
  end.

Fixpoint parse_lines (ls : list string) (line : nat) : scanned (list (node * node)) :=
  match ls with
  | [] => Scanned []
  | l :: ls =>
      match parse_line l line with
      | Scanned kv =>
          match parse_lines ls (S line) with
          | Scanned kvs => Scanned (kv :: kvs)
          | other => other
          end
      | ScannerError problem l => ScannerError problem l
      | Unscanned => Unscanned
      end
  end.

(** The lines of a text; a final line feed ends the last line. *)
Definition lines (text : string) : list string :=
  let ls := split_on LF text in
  match rev ls with
  | EmptyString :: rls => rev rls
  | _ => ls
  end.

(** The texts of the fragment: printable ASCII characters and line feeds,
    in lines of at most 1000 characters.  Any other character is left out (a
    carriage return also ends a line, a tab is also a blank, the reader
    rejects the other control characters), and so is a longer line (a key is
    looked for within 1024 characters). *)
Definition modelled_text (text : string) : bool :=
  string_forallb (λ c, is_printable c || Ascii.eqb c LF) text
  && forallb (λ l, (String.length l <=? 1000)%nat) (split_on LF text).

Definition parse_document (text : string) : scanned document :=
  if String.eqb text "" then Scanned no_document
  else if negb (modelled_text text) then Unscanned
  else
    match lines text with
    | [l] =>
        if String.eqb l "{}" then Scanned (root_mapping [])
        else match parse_key l 0 with
             | Some (n, EmptyString) => Scanned (root_node n)
             | _ =>
                 match parse_line l 0 with
                 | Scanned kv => Scanned (root_mapping [kv])
                 | ScannerError problem line => ScannerError problem line
                 | Unscanned => Unscanned
                 end
             end
    | ls =>
        match parse_lines ls 0 with
        | Scanned kvs => Scanned (root_mapping kvs)
        | ScannerError problem line => ScannerError problem line
        | Unscanned => Unscanned
        end
    end.

(** *** decode.go: nodes into a [map[string]interface{}] *)

Definition resolved (implicit : bool) (v : string) : string * value :=
  if implicit then default ("!!str", VString v) (resolve v) else ("!!str", VString v).

(** [d.unmarshal(n, out)] for [out] an [interface{}]. *)
Fixpoint decode_value (n : node) : value :=
  match n with
  | scalarNode implicit v _ => (resolved implicit v).2
  | sequenceNode children _ => VSeq (decode_value <$> children)
  end.

(** [d.terror]: the value of a scalar is quoted, cut after seven characters
    when it has more than ten. *)
Definition terror (line : nat) (tag value type : string) : string :=
  "line " +:+ strconv_Itoa (Z.of_nat (S line)) +:+ ": cannot unmarshal " +:+ tag
  +:+ value +:+ " into " +:+ type.

Definition terror_value (v : string) : string :=
  if (10 <? String.length v)%nat then " `" +:+ substring 0 7 v +:+ "...`"
  else " `" +:+ v +:+ "`".

(** [d.unmarshal(n, out)] for [out] a [string]: a map key. *)
Definition decode_key (n : node) : string + string :=
  match n with
  | scalarNode implicit v _ =>
      match (resolved implicit v).2 with
      | VNil => inl ""
      | _ => inl v
      end
  | sequenceNode _ line => inr (terror line "!!seq" "" "string")
  end.

(** [d.mapping]: the entries whose key decodes are stored, the others leave
    a type error behind. *)
Definition decode_mapping (children : list (node * node))
  (out : gmap string value) : gmap string value * list string :=
  foldl (λ (acc : gmap string value * list string) (kv : node * node),
           match decode_key kv.1 with
           | inl k => (<[k := decode_value kv.2]> acc.1, acc.2)
           | inr t => (acc.1, (acc.2 ++ [t])%list)
           end)
        (out, []) children.

Definition map_type : string := "map[string]interface {}".

Definition decode (d : document) (out : gomap value) : gomap value * option go_error :=
  match d with
  | no_document => (out, None)
  | root_mapping children =>
      let '(out, terrors) := decode_mapping children (default ∅ out) in
      (Some out, match terrors with [] => None | _ => Some (yaml_TypeError terrors) end)
  | root_node (scalarNode implicit v line) =>
      match resolved implicit v with
      | (_, VNil) => (None, None)
      | (tag, _) => (out, Some (yaml_TypeError [terror line tag (terror_value v) map_type]))
      end
  | root_node (sequenceNode _ line) =>
      (out, Some (yaml_TypeError [terror line "!!seq" "" map_type]))
  end.

(** [parser.fail]: the line of a scanner error is shown unless it is the
    first one. *)
Definition scanner_error (problem : string) (line : nat) : go_error :=
  yamlError ((if (line =? 0)%nat then ""
              else "line " +:+ strconv_Itoa (Z.of_nat (S line)) +:+ ": ") +:+ problem).

(** [yaml.Unmarshal(in, &out)] *)
Definition Unmarshal (text : string) (out : gomap value)
  : outcome (gomap value * option go_error) :=
  match parse_document text with
  | Scanned d => Done (decode d out)
  | ScannerError problem line => Done (out, Some (scanner_error problem line))
  | Unscanned => Done (out, Some NotModelled)
  end.

End yaml.

(** ** [encoding/json]

    The package of Go 1.13, the version the release workflow installs.
    Fragment.  Strings are ASCII; a number is an integer of magnitude at most
    2^53 written without fraction and exponent (every such integer is a
    [float64]); negative zero is left out, and so is a text that ends inside
    a literal name, inside an escape or after a minus sign. *)

Module json.

Definition BS : ascii := "092"%char.
Definition CR : ascii := "013"%char.
Definition TAB : ascii := "009"%char.

Definition is_ascii (c : ascii) : bool := (N_of_ascii c <? 128)%N.

(** The integers that a [float64] holds exactly and that the model covers. *)
Definition exact_float (z : Z) : bool := (Z.abs z <=? 2 ^ 53)%Z.

(** *** encode.go *)

Definition hex : string := "0123456789abcdef".

Definition hex_digit (n : N) : ascii :=
  default "0"%char (String.get (N.to_nat n) hex).

(** One byte of a string ([encodeState.string], with [escapeHTML]). *)
Definition escape (c : ascii) : string :=
  if Ascii.eqb c DQ || Ascii.eqb c BS then String BS (String c "")
  else if Ascii.eqb c LF then String BS "n"
  else if Ascii.eqb c CR then String BS "r"
  else if Ascii.eqb c TAB then String BS "t"
  else if (N_of_ascii c <? 32)%N || string_existsb (Ascii.eqb c) "<>&"
  then String BS "u00" +:+ String (hex_digit (N_of_ascii c / 16))
                            (String (hex_digit (N_of_ascii c mod 16)) "")
  else String c "".

Fixpoint escape_all (s : string) : string :=
  match s with
  | EmptyString => ""
  | String c rest => escape c +:+ escape_all rest
  end.

Definition encode_string (s : string) : string + go_error :=
  if string_forallb is_ascii s then inl (dq +:+ escape_all s +:+ dq)
  else inr NotModelled.

(** The results of the parts, or the first error among them. *)
Fixpoint collect (parts : list (string + go_error)) : list string + go_error :=
  match parts with
  | [] => inl []
  | inr e :: _ => inr e
  | inl s :: parts =>
      match collect parts with
      | inl ss => inl (s :: ss)
      | inr e => inr e
      end
  end.

(** [sort.Slice(sv, func(i, j int) bool { return sv[i].s < sv[j].s })] *)
Definition key_le (a b : string * (string + go_error)) : Prop :=
  String.leb a.1 b.1 = true.

#[global] Instance key_le_dec a b : Decision (key_le a b).
Proof. unfold key_le. apply _. Defined.

Definition encode_member (kv : string * (string + go_error)) : string + go_error :=
  match encode_string kv.1, kv.2 with
  | inl k, inl v => inl (k +:+ ":" +:+ v)
  | inr e, _ => inr e
  | _, inr e => inr e
  end.

Fixpoint encode (v : value) : string + go_error :=
  match v with
  | VNil => inl "null"
  | VBool true => inl "true"
  | VBool false => inl "false"
  | VInt z => inl (strconv_Itoa z)
  | VFloat z => if exact_float z then inl (strconv_Itoa z) else inr NotModelled
  | VString s => encode_string s
  | VSeq l =>
      match collect (encode <$> l) with
      | inl items => inl ("[" +:+ strings_Join items "," +:+ "]")
      | inr e => inr e
      end
  | VMap m =>
      let sv := merge_sort key_le (map_to_list (encode <$> m)) in
      match collect (encode_member <$> sv) with
      | inl members => inl ("{" +:+ strings_Join members "," +:+ "}")
      | inr e => inr e
      end
  | VChan => inr (json_UnsupportedTypeError "chan int")
  end.

(** [json.Marshal] *)
Definition Marshal (v : value) : outcome (string * option go_error) :=
  match encode v with
  | inl data => Done (data, None)
  | inr e => Done ("", Some e)
  end.

(** *** scanner.go, decode.go *)

Inductive parsed (A : Type) : Type :=
  | Parsed (a : A)
  | SyntaxError (msg : string)
  | Unparsed.
Arguments Parsed {A} a.
Arguments SyntaxError {A} msg.
Arguments Unparsed {A}.

Definition pmap {A B : Type} (f : A → B) (p : parsed A) : parsed B :=
  match p with
  | Parsed a => Parsed (f a)
  | SyntaxError msg => SyntaxError msg
  | Unparsed => Unparsed
  end.

(** [quoteChar] *)
Definition quoteChar (c : ascii) : string :=
  if Ascii.eqb c "'" then "'" +:+ String BS "''"
  else if Ascii.eqb c DQ then "'" +:+ dq +:+ "'"
  else if Ascii.eqb c BS then "'" +:+ String BS (String BS "'")
  else if is_printable c then "'" +:+ String c "'"
  else if Ascii.eqb c "007" then "'" +:+ String BS "a'"
  else if Ascii.eqb c "008" then "'" +:+ String BS "b'"
  else if Ascii.eqb c "012" then "'" +:+ String BS "f'"
  else if Ascii.eqb c LF then "'" +:+ String BS "n'"
  else if Ascii.eqb c CR then "'" +:+ String BS "r'"
  else if Ascii.eqb c TAB then "'" +:+ String BS "t'"
  else if Ascii.eqb c "011" then "'" +:+ String BS "v'"
  else "'" +:+ String BS "x" +:+ String (hex_digit (N_of_ascii c / 16))
                                   (String (hex_digit (N_of_ascii c mod 16)) "'").

Definition unexpected_end {A : Type} : parsed A :=
  SyntaxError "unexpected end of JSON input".

Definition invalid_character {A : Type} (c : ascii) (context : string) : parsed A :=
  if is_ascii c then SyntaxError ("invalid character " +:+ quoteChar c +:+ " " +:+ context)
  else Unparsed.

Definition is_json_space (c : ascii) : bool :=
  Ascii.eqb c " " || Ascii.eqb c TAB || Ascii.eqb c CR || Ascii.eqb c LF.

Fixpoint skip_space (s : string) : string :=
  match s with
  | String c rest => if is_json_space c then skip_space rest else s
  | EmptyString => s
  end.

Definition hex_value (c : ascii) : option N :=
  if is_digit c then Some (N_of_ascii c - 48)%N
  else if in_range 97 102 c then Some (N_of_ascii c - 87)%N
  else if in_range 65 70 c then Some (N_of_ascii c - 55)%N
  else None.

(** The simple escapes of [unquote]. *)
Definition unescape (c : ascii) : option ascii :=
  if Ascii.eqb c DQ || Ascii.eqb c BS || Ascii.eqb c "/" then Some c
  else if Ascii.eqb c "b" then Some "008"%char
  else if Ascii.eqb c "f" then Some "012"%char
  else if Ascii.eqb c "n" then Some LF
  else if Ascii.eqb c "r" then Some CR
  else if Ascii.eqb c "t" then Some TAB
  else None.

Definition in_hex_escape : string := "in " +:+ String BS "u hexadecimal character escape".

Definition with_char (c : ascii) (r : string * string) : string * string :=
  (String c r.1, r.2).

(** A string literal after its opening quote: the text, and what follows
    the closing quote. *)
Fixpoint parse_string (s : string) : parsed (string * string) :=
  match s with
  | EmptyString => unexpected_end
  | String c rest =>
      if Ascii.eqb c DQ then Parsed ("", rest)
      else if Ascii.eqb c BS then
        match rest with
        | EmptyString => Unparsed
        | String e rest =>
            match unescape e with
            | Some c' => pmap (with_char c') (parse_string rest)
            | None =>
                if Ascii.eqb e "u" then
                  match rest with
                  | String h1 (String h2 (String h3 (String h4 rest))) =>
                      match hex_value h1, hex_value h2, hex_value h3, hex_value h4 with
                      | Some n1, Some n2, Some n3, Some n4 =>
                          let code := (((n1 * 16 + n2) * 16 + n3) * 16 + n4)%N in
                          if (code <? 128)%N
                          then pmap (with_char (ascii_of_N code)) (parse_string rest)
                          else Unparsed
                      | None, _, _, _ => invalid_character h1 in_hex_escape
                      | _, None, _, _ => invalid_character h2 in_hex_escape
                      | _, _, None, _ => invalid_character h3 in_hex_escape
                      | _, _, _, None => invalid_character h4 in_hex_escape
                      end
                  | String h1 (String h2 (String h3 EmptyString)) =>
                      match hex_value h1, hex_value h2, hex_value h3 with
                      | Some _, Some _, Some _ => Unparsed
                      | None, _, _ => invalid_character h1 in_hex_escape
                      | _, None, _ => invalid_character h2 in_hex_escape
                      | _, _, None => invalid_character h3 in_hex_escape
                      end
                  | String h1 (String h2 EmptyString) =>
                      match hex_value h1, hex_value h2 with
                      | Some _, Some _ => Unparsed
                      | None, _ => invalid_character h1 in_hex_escape
                      | _, None => invalid_character h2 in_hex_escape
                      end
                  | String h1 EmptyString =>
                      match hex_value h1 with
                      | Some _ => Unparsed
                      | None => invalid_character h1 in_hex_escape
                      end
                  | EmptyString => Unparsed
                  end
                else invalid_character e "in string escape code"
            end
        end
      else if (N_of_ascii c <? 32)%N then invalid_character c "in string literal"
      else if is_ascii c then pmap (with_char c) (parse_string rest)
      else Unparsed
  end.

(** The rest of a literal name. *)
Fixpoint expect (literal : string) (name : string) (s : string) : parsed string :=
  match literal with
  | EmptyString => Parsed s
  | String l literal =>
      match s with
      | EmptyString => Unparsed
      | String c rest =>
          if Ascii.eqb c l then expect literal name rest
          else invalid_character c
                 ("in literal " +:+ name +:+ " (expecting " +:+ quoteChar l +:+ ")")
      end
  end.

(** The digits of a number: a lone zero, or a run that does not start with
    one. *)
Definition digits (s : string) : string * string :=
  match s with
  | String c rest =>
      if Ascii.eqb c "0" then (String c "", rest) else span is_digit s
  | EmptyString => ("", "")
  end.

Definition starts_fraction_or_exponent (s : string) : bool :=
  match s with
  | String c _ => string_existsb (Ascii.eqb c) ".eE"
  | EmptyString => false
  end.

(** A number from its first character on; [convertNumber] gives a [float64]. *)
Definition parse_number (s : string) : parsed (value * string) :=
  let '(negative, s) :=
    match s with
    | String c rest => if Ascii.eqb c "-" then (true, rest) else (false, s)
    | EmptyString => (false, s)
    end in
  let '(ds, rest) := digits s in
  match parse_decimal ds with
  | None =>
      match s with
      | EmptyString => Unparsed
      | String c _ => invalid_character c "in numeric literal"
      end
  | Some n =>
      if starts_fraction_or_exponent rest then Unparsed
      else if negb (exact_float (Z.of_N n)) || negative && (n =? 0)%N then Unparsed
      else Parsed (VFloat (if negative then - Z.of_N n else Z.of_N n)%Z, rest)
  end.

(** A value, the members of an object after one of them, and the elements
    of an array after one of them.  The fuel bounds the number of nested
    calls; the length of the text is always enough. *)
Fixpoint parse_value (fuel : nat) (s : string) : parsed (value * string) :=
  match fuel with
  | O => Unparsed
  | S fuel =>
      match skip_space s with
      | EmptyString => unexpected_end
      | String c rest =>
          if Ascii.eqb c "{" then
            match skip_space rest with
            | EmptyString => unexpected_end
            | String c' rest' =>
                if Ascii.eqb c' "}" then Parsed (VMap ∅, rest')
                else parse_members fuel ∅ (String c' rest')
            end
          else if Ascii.eqb c "[" then
            match skip_space rest with
            | EmptyString => unexpected_end
            | String c' rest' =>
                if Ascii.eqb c' "]" then Parsed (VSeq [], rest')
                else parse_elements fuel [] (String c' rest')
            end
          else if Ascii.eqb c DQ then
            pmap (λ r, (VString r.1, r.2)) (parse_string rest)
          else if Ascii.eqb c "t" then
            pmap (λ r, (VBool true, r)) (expect "rue" "true" rest)
          else if Ascii.eqb c "f" then
            pmap (λ r, (VBool false, r)) (expect "alse" "false" rest)
          else if Ascii.eqb c "n" then
            pmap (λ r, (VNil, r)) (expect "ull" "null" rest)
          else if Ascii.eqb c "-" || is_digit c then parse_number (String c rest)
          else invalid_character c "looking for beginning of value"
      end
  end
with parse_elements (fuel : nat) (acc : list value) (s : string)
  : parsed (value * string) :=
  match fuel with
  | O => Unparsed
  | S fuel =>
      match parse_value fuel s with
      | Parsed (v, rest) =>
          match skip_space rest with
          | EmptyString => unexpected_end
          | String c rest =>
              if Ascii.eqb c "," then parse_elements fuel (acc ++ [v])%list rest
              else if Ascii.eqb c "]" then Parsed (VSeq (acc ++ [v])%list, rest)
              else invalid_character c "after array element"
          end
      | SyntaxError msg => SyntaxError msg
      | Unparsed => Unparsed
      end
  end
with parse_members (fuel : nat) (acc : gmap string value) (s : string)
  : parsed (value * string) :=
  match fuel with
  | O => Unparsed
  | S fuel =>
      match skip_space s with
      | EmptyString => unexpected_end
      | String c rest =>
          if Ascii.eqb c DQ then
            match parse_string rest with
            | Parsed (key, rest) =>
                match skip_space rest with
                | EmptyString => unexpected_end
                | String c rest =>
                    if Ascii.eqb c ":" then
                      match parse_value fuel rest with
                      | Parsed (v, rest) =>
                          match skip_space rest with
                          | EmptyString => unexpected_end
                          | String c rest =>
                              if Ascii.eqb c ","
                              then parse_members fuel (<[key := v]> acc) rest
                              else if Ascii.eqb c "}"
                              then Parsed (VMap (<[key := v]> acc), rest)
                              else invalid_character c "after object key:value pair"
                          end
                      | SyntaxError msg => SyntaxError msg
                      | Unparsed => Unparsed
                      end
                    else invalid_character c "after object key"
                end
            | SyntaxError msg => SyntaxError msg
            | Unparsed => Unparsed
            end
          else invalid_character c "looking for beginning of object key string"
      end
  end.

(** [checkValid]: one value, then only white space. *)
Definition parse (text : string) : parsed value :=
  match parse_value (S (String.length text)) text with
  | Parsed (v, rest) =>
      match skip_space rest with
      | EmptyString => Parsed v
      | String c _ => invalid_character c "after top-level value"
      end
  | SyntaxError msg => SyntaxError msg
  | Unparsed => Unparsed
  end.

Definition map_type : string := "map[string]interface {}".

(** [d.value(rv)] for [rv] a [map[string]interface{}]: an object is stored
    entry by entry, [null] makes the map [nil], anything else is a type
    error that leaves the map alone. *)
Definition store (v : value) (out : gomap value) : gomap value * option go_error :=
  match v with
  | VMap members => (Some (members ∪ default ∅ out), None)
  | VNil => (None, None)
  | VBool _ => (out, Some (json_UnmarshalTypeError "bool" map_type))
  | VInt _ | VFloat _ => (out, Some (json_UnmarshalTypeError "number" map_type))
  | VString _ => (out, Some (json_UnmarshalTypeError "string" map_type))
  | VSeq _ => (out, Some (json_UnmarshalTypeError "array" map_type))
  | VChan => (out, Some NotModelled)
  end.

(** [json.Unmarshal(data, &out)] *)
Definition Unmarshal (text : string) (out : gomap value)
  : outcome (gomap value * option go_error) :=
  match parse text with
  | Parsed v => Done (store v out)
  | SyntaxError msg => Done (out, Some (json_SyntaxError msg))
  | Unparsed => Done (out, Some NotModelled)
  end.

(** *** The values of the fragment *)

(** The values of the fragment: [nil], booleans, integers and [float64]
    numbers that a [float64] holds exactly, ASCII strings, and sequences
    and maps of these with ASCII keys. *)
Inductive json_value : value → Prop :=
  | json_nil : json_value VNil
  | json_bool b : json_value (VBool b)
  | json_int z : exact_float z = true → json_value (VInt z)
  | json_float z : exact_float z = true → json_value (VFloat z)
  | json_string s : string_forallb is_ascii s = true → json_value (VString s)
  | json_seq l : Forall json_value l → json_value (VSeq l)
  | json_map m :
      map_Forall (λ k x, string_forallb is_ascii k = true ∧ json_value x) m →
      json_value (VMap m).

(** What the decoder makes of an encoded value: every number is a
    [float64]. *)
Fixpoint as_decoded (v : value) : value :=
  match v with
  | VInt z => VFloat z
  | VSeq l => VSeq (as_decoded <$> l)
  | VMap m => VMap (as_decoded <$> m)
  | _ => v
  end.

End json.

(** ** [github.com/BurntSushi/toml]

    Fragment.  [Encode] on a scalar, which has no key to be written under, and
    on a map with at most one entry whose key is a bare key and whose value is
    an integer, a boolean or a basic string. *)

Module toml.

Definition errNoKey : go_error :=
  errors_New "toml: top-level values must be Go maps or structs".

Definition bare_key (k : string) : bool :=
  negb (String.eqb k "")
  && string_forallb (λ c, is_letter c || is_digit c || string_existsb (Ascii.eqb c) "_-") k.

Definition basic_string (s : string) : bool :=
  string_forallb (λ c, is_printable c && negb (Ascii.eqb c DQ) && negb (Ascii.eqb c json.BS)) s.

(** [enc.eElement] *)
Definition element (v : value) : option string :=
  match v with
  | VBool true => Some "true"
  | VBool false => Some "false"
  | VInt z => Some (strconv_Itoa z)
  | VString s => if basic_string s then Some (dq +:+ s +:+ dq) else None
  | _ => None
  end.

(** [toml.NewEncoder(b).Encode(v)]: what the buffer holds afterwards, and
    the error.  A scalar reaches [keyEqElement] with an empty key. *)
Definition Encode (v : value) : outcome (string * option go_error) :=
  match v with
  | VBool _ | VInt _ | VFloat _ | VString _ => Done ("", Some errNoKey)
  | VMap m =>
      match map_to_list m with
      | [] => Done ("", None)
      | [(k, x)] =>
          match element x with
          | Some xs =>
              if bare_key k then Done (k +:+ " = " +:+ xs +:+ nl, None)
              else Done ("", Some NotModelled)
          | None => Done ("", Some NotModelled)
          end
      | _ => Done ("", Some NotModelled)
      end
  | _ => Done ("", Some NotModelled)
  end.

End toml.

(** The three packages together. *)
#[global] Instance go_codecs : Codecs := {|
  yaml_Marshal := yaml.Marshal;
  yaml_Unmarshal := yaml.Unmarshal;
  toml_Encode := toml.Encode;
  json_Marshal := json.Marshal;
  json_Unmarshal := json.Unmarshal;
|}.

(** ** [path/filepath] on Unix, and a file system without files *)

Module filepath.

(** One element of the path in [Clean]: [out] holds the elements written so
    far, the last one first, and [depth] counts those a [..] may remove. *)
Definition clean_element (rooted : bool) (st : list string * nat) (e : string)
  : list string * nat :=
  if String.eqb e "" || String.eqb e "." then st
  else if String.eqb e ".." then
    match st.2 with
    | S depth => (tail st.1, depth)
    | O => if rooted then st else (".." :: st.1, O)
    end
  else (e :: st.1, S st.2).

(** [filepath.Clean] *)
Definition Clean (path : string) : string :=
  if String.eqb path "" then "."
  else
    let rooted := match path with String c _ => os_IsPathSeparator c | _ => false end in
    let out := (foldl (clean_element rooted) ([], O) (split_on "/" path)).1 in
    let body := strings_Join (rev out) "/" in
    if rooted then "/" +:+ body
    else if String.eqb body "" then "." else body.

(** [filepath.Join(a, b)] *)
Definition Join (a b : string) : string :=
  if negb (String.eqb a "") then Clean (a +:+ "/" +:+ b)
  else if negb (String.eqb b "") then Clean b
  else "".

End filepath.

(** A file system that holds no file: no pattern has a match, no file opens. *)
Definition no_files : FileSystem := {|
  filepath_Join := filepath.Join;
  filepath_Glob := λ _, ([], None);
  ioutil_ReadFile := λ name, ("", Some (os_PathError "open" name "no such file or directory"));
|}.

(** The enumeration in the order of the map's own representation. *)
Definition stored_order : range_order :=
  {| range := map_to_list; range_perm := λ m, reflexivity (map_to_list m) |}.

(** * Properties *)

(** ** The flattening loops

    Both loops store, for every visited entry, one value under a key computed
    from the entry: [m[key kv] = val kv]. *)

Section insert_loop.
Context {A V : Type} (key : A → string) (val : A → V).

Definition insert_loop (m0 : gmap string V) (kvs : list A) : gmap string V :=
  foldl (λ m kv, <[key kv := val kv]> m) m0 kvs.

Lemma insert_loop_snoc m0 kvs kv :
  insert_loop m0 (kvs ++ [kv]) = <[key kv := val kv]> (insert_loop m0 kvs).
Proof. unfold insert_loop. by rewrite foldl_app. Qed.

Lemma insert_loop_dom m0 kvs :
  dom (insert_loop m0 kvs) = dom m0 ∪ list_to_set (key <$> kvs).
Proof.
  revert m0. induction kvs as [|kv kvs IH]; intros m0; simpl.
  - by rewrite (right_id_L ∅ (∪)).
  - unfold insert_loop in *. simpl. rewrite IH, dom_insert_L.
    by rewrite (comm_L (∪) {[key kv]}), (assoc_L (∪)).
Qed.

(** Entries visited later that have a different key leave a stored value alone. *)
Lemma insert_loop_untouched m0 kvs b :
  Forall (λ kv, key kv ≠ b) kvs → insert_loop m0 kvs !! b = m0 !! b.
Proof.
  revert m0. induction kvs as [|kv kvs IH]; intros m0 Hne; [done|].
  apply Forall_cons in Hne as [Hkv Hne]. unfold insert_loop in *. simpl.
  rewrite IH by done. by rewrite lookup_insert_ne.
Qed.

(** Last seen wins. *)
Lemma insert_loop_last m0 l1 kv l2 :
  Forall (λ kv', key kv' ≠ key kv) l2 →
  insert_loop m0 (l1 ++ kv :: l2) !! key kv = Some (val kv).
Proof.
  intros Hne. unfold insert_loop. rewrite foldl_app. simpl.
  fold (insert_loop (<[key kv:=val kv]> (foldl (λ m kv0, <[key kv0:=val kv0]> m) m0 l1)) l2).
  rewrite insert_loop_untouched by done. apply lookup_insert_eq.
Qed.

(** Every stored value comes from a visited entry (or was there before). *)
Lemma insert_loop_lookup m0 kvs b v :
  insert_loop m0 kvs !! b = Some v →
  m0 !! b = Some v ∨ ∃ kv, kv ∈ kvs ∧ key kv = b ∧ val kv = v.
Proof.
  induction kvs as [|kv kvs IH] using rev_ind; [by left|].
  rewrite insert_loop_snoc. destruct (decide (key kv = b)) as [<-|Hne].
  - rewrite lookup_insert_eq. intros [= <-]. right. exists kv.
    split; [|done]. apply elem_of_app. right. by apply list_elem_of_singleton.
  - rewrite lookup_insert_ne by done. intros Hb.
    destruct (IH Hb) as [?|(kv' & Hin & ? & ?)]; [by left|].
    right. exists kv'. split; [|done]. apply elem_of_app. by left.
Qed.
End insert_loop.

Lemma range_elem_of (ord : range_order) (f : gmap string string) k c :
  (k, c) ∈ range ord f ↔ f !! k = Some c.
Proof. rewrite (range_perm ord f). apply elem_of_map_to_list. Qed.

Lemma range_singleton (ord : range_order) k c : range ord {[k := c]} = [(k, c)].
Proof.
  apply Permutation_singleton_r. rewrite (range_perm ord).
  by rewrite map_to_list_singleton.
Qed.

Lemma range_empty (ord : range_order) : range ord ∅ = [].
Proof. apply Permutation_nil_r. rewrite (range_perm ord). by rewrite map_to_list_empty. Qed.

(** The keys of a flattened map are the base names of the collection's names. *)
Lemma insert_loop_range_dom (key val : string * string → string)
  (ord : range_order) (f : gmap string string) b :
  b ∈ dom (insert_loop key val ∅ (range ord f)) ↔ ∃ k c, f !! k = Some c ∧ key (k, c) = b.
Proof.
  rewrite insert_loop_dom, dom_empty_L, (left_id_L ∅ (∪)), elem_of_list_to_set, list_elem_of_fmap.
  split.
  - intros ([k c] & -> & Hin). exists k, c. by apply range_elem_of in Hin.
  - intros (k & c & Hf & <-). exists (k, c). split; [done|]. by apply range_elem_of.
Qed.

Example Base_examples :
  filepath_Base "cfg/app.yaml" = "app.yaml" ∧ filepath_Base "s.txt" = "s.txt"
  ∧ filepath_Base "a/b/" = "b" ∧ filepath_Base "///" = "/" ∧ filepath_Base "" = ".".
Proof. repeat split; reflexivity. Qed.

Example base64_examples :
  base64_EncodeToString "hello" = "aGVsbG8=" ∧ base64_EncodeToString "" = ""
  ∧ base64_EncodeToString "Ma" = "TWE=" ∧ base64_EncodeToString "Man" = "TWFu"
  ∧ base64_EncodeToString "M" = "TQ==".
Proof. repeat split; reflexivity. Qed.


(** Enumerating the entries from last to first is another order. *)
Definition reversed_order : range_order :=
  {| range := λ m, reverse (map_to_list m);
     range_perm := λ m, reverse_Permutation (map_to_list m) |}.

(** When no two names of the collection share a base name, every entry is
    found under its own. *)
Lemma insert_loop_range_injective (key val : string * string → string)
  (ord : range_order) (f : gmap string string) k c :
  f !! k = Some c →
  (∀ k' c', f !! k' = Some c' → key (k', c') = key (k, c) → k' = k) →
  insert_loop key val ∅ (range ord f) !! key (k, c) = Some (val (k, c)).
Proof.
  intros Hk Hinj.
  assert (Hin : (k, c) ∈ range ord f) by by apply range_elem_of.
  apply list_elem_of_split in Hin as (l1 & l2 & Hsplit).
  rewrite Hsplit. apply insert_loop_last.
  apply Forall_forall. intros [k' c'] Hin' Hkey.
  assert (Hnd : NoDup ((range ord f).*1)).
  { rewrite (range_perm ord f). apply NoDup_fst_map_to_list. }
  rewrite Hsplit, fmap_app, fmap_cons in Hnd. simpl in Hnd.
  apply NoDup_app in Hnd as (_ & _ & Hnd). apply NoDup_cons in Hnd as [Hnotin _].
  apply Hnotin. apply list_elem_of_fmap. exists (k', c'). split; [|done].
  simpl. symmetry. apply (Hinj k' c'); [|done].
  apply (range_elem_of ord). rewrite Hsplit. apply elem_of_app. right. by right.
Qed.

(** The loops of [AsConfig] and [AsSecrets] are instances. *)
Lemma AsConfig_range_loop kvs :
  AsConfig_range kvs = insert_loop (λ kv, filepath_Base kv.1) (λ kv, kv.2) ∅ kvs.
Proof. reflexivity. Qed.

Lemma AsSecrets_range_loop kvs :
  AsSecrets_range kvs
  = insert_loop (λ kv, filepath_Base kv.1) (λ kv, base64_EncodeToString kv.2) ∅ kvs.
Proof. reflexivity. Qed.

(** ** The decoders of the fragment on a failure *)

(** The error values whose description starts with a fixed prefix. *)
Lemma yaml_error_description msg errs :
  Error (yamlError msg) ≠ "" ∧ Error (yaml_TypeError errs) ≠ "".
Proof. split; discriminate. Qed.

Module json_facts.
Import json.

(** A syntax error of the parser carries a message. *)
Definition has_message {A : Type} (p : parsed A) : Prop :=
  match p with
  | SyntaxError msg => msg ≠ ""
  | _ => True
  end.

Lemma has_message_end {A : Type} : has_message (@unexpected_end A).
Proof. discriminate. Qed.

Lemma has_message_invalid {A : Type} c context :
  has_message (@invalid_character A c context).
Proof. unfold invalid_character. destruct (is_ascii c); [discriminate|done]. Qed.

Lemma has_message_pmap {A B : Type} (f : A → B) p :
  has_message p → has_message (pmap f p).
Proof. by destruct p. Qed.

#[local] Hint Resolve has_message_end has_message_invalid has_message_pmap : core.

Lemma has_message_parse_string s : has_message (parse_string s).
Proof.
  remember (String.length s) as n eqn:Hn. revert s Hn.
  induction n as [n IH] using lt_wf_ind. intros s ->.
  destruct s as [|c rest]; simpl; [auto|].
  repeat case_match; subst; auto; try done;
    apply has_message_pmap; (eapply IH; [|reflexivity]); simpl; lia.
Qed.

Lemma has_message_expect literal name s : has_message (expect literal name s).
Proof.
  revert s. induction literal as [|l literal IH]; intros s; simpl; [done|].
  destruct s; [done|]. case_match; auto.
Qed.

Lemma has_message_parse_number s : has_message (parse_number s).
Proof. unfold parse_number. repeat case_match; subst; auto; done. Qed.

#[local] Hint Resolve has_message_parse_string has_message_expect
  has_message_parse_number : core.

Lemma has_message_parse_value fuel :
  (∀ s, has_message (parse_value fuel s))
  ∧ (∀ acc s, has_message (parse_elements fuel acc s))
  ∧ (∀ acc s, has_message (parse_members fuel acc s)).
Proof.
  induction fuel as [|fuel (IHv & IHe & IHm)]; [by repeat split|].
  split; [|split].
  - intros s. simpl. repeat case_match; subst; auto; done.
  - intros acc s. simpl. specialize (IHv s).
    destruct (parse_value fuel s) as [[v rest]| |]; [|done|done].
    repeat case_match; subst; auto; done.
  - intros acc s. simpl.
    destruct (skip_space s) as [|c rest]; [auto|].
    destruct (Ascii.eqb c DQ); [|auto].
    pose proof (has_message_parse_string rest) as Hs.
    destruct (parse_string rest) as [[key rest']| |]; [|done|done].
    destruct (skip_space rest') as [|c' rest'']; [auto|].
    destruct (Ascii.eqb c' ":"); [|auto].
    specialize (IHv rest'').
    destruct (parse_value fuel rest'') as [[v rest3]| |]; [|done|done].
    repeat case_match; subst; auto; done.
Qed.

Lemma has_message_parse text : has_message (parse text).
Proof.
  unfold parse.
  pose proof (proj1 (has_message_parse_value (S (String.length text))) text) as Hv.
  destruct (parse_value _ text) as [[v rest]| |]; [|done|done].
  destruct (skip_space rest); auto.
Qed.

(** A failure of [Unmarshal] leaves the map as it was, and its error has a
    description. *)
Lemma json_Unmarshal_failure text out out' err :
  Unmarshal text out = Done (out', Some err) →
  out' = out ∧ (err ≠ NotModelled → Error err ≠ "").
Proof.
  unfold Unmarshal. pose proof (has_message_parse text) as Hmsg.
  destruct (parse text) as [v|msg|].
  - destruct v; simpl; intros [= <- <-]; (split; [done|]); discriminate.
  - intros [= <- <-]. by split.
  - intros [= <- <-]. by split.
Qed.
End json_facts.

Module yaml_facts.
Import yaml.

(** A failure of [Unmarshal] on a map that is not [nil] leaves a map that
    is not [nil], and its error has a description. *)
Lemma yaml_Unmarshal_failure text m out err :
  Unmarshal text (Some m) = Done (out, Some err) →
  is_Some out ∧ Error err ≠ "".
Proof.
  unfold Unmarshal. destruct (parse_document text) as [d|problem line|].
  - destruct d as [|[implicit v line|children line]|children]; simpl.
    + discriminate.
    + destruct (resolved implicit v) as [tag []]; intros [= <- <-];
        (split; [by eexists|discriminate]).
    + intros [= <- <-]. split; [by eexists|discriminate].
    + destruct (decode_mapping children m) as [out'' [|t terrors]];
        intros [= <- <-]. split; [by eexists|discriminate].
  - intros [= <- <-]. split; [by eexists|discriminate].
  - intros [= <- <-]. split; [by eexists|discriminate].
Qed.
End yaml_facts.

(** ** The JSON encoder followed by the JSON decoder *)

Lemma append_cons (c : ascii) (s t : string) : String c s +:+ t = String c (s +:+ t).
Proof. reflexivity. Qed.

Lemma append_nil (t : string) : "" +:+ t = t.
Proof. reflexivity. Qed.

Lemma length_append (s1 s2 : string) :
  String.length (s1 +:+ s2) = (String.length s1 + String.length s2)%nat.
Proof.
  induction s1 as [|c s1 IH]; [done|]. rewrite append_cons. simpl. by rewrite IH.
Qed.

Lemma append_assoc (s1 s2 s3 : string) : (s1 +:+ s2) +:+ s3 = s1 +:+ (s2 +:+ s3).
Proof. induction s1 as [|c s1 IH]; [done|]. rewrite !append_cons. by rewrite IH. Qed.

Lemma append_empty_r (s : string) : s +:+ "" = s.
Proof. induction s as [|c s IH]; [done|]. rewrite append_cons. by rewrite IH. Qed.

(** ** Induction over Go values *)

Fixpoint value_size (v : value) : nat :=
  match v with
  | VSeq l => S (foldr (λ x n, value_size x + n) 0 l)
  | VMap m => S (map_fold (λ _ x n, value_size x + n) 0 m)
  | _ => 1
  end.

Lemma value_size_elem (l : list value) (x : value) :
  x ∈ l → (value_size x < value_size (VSeq l))%nat.
Proof.
  simpl. induction 1 as [x l|x y l _ IH]; simpl; lia.
Qed.

Lemma value_size_lookup (m : gmap string value) (k : string) (x : value) :
  m !! k = Some x → (value_size x < value_size (VMap m))%nat.
Proof.
  simpl. intros Hk.
  enough (value_size x ≤ map_fold (λ _ x n, value_size x + n) 0 m)%nat by lia.
  revert k x Hk.
  apply (map_fold_weak_ind (λ r (m : gmap string value),
           ∀ k x, m !! k = Some x → (value_size x ≤ r)%nat)).
  - intros k x. by rewrite lookup_empty.
  - intros i y m' r Hi IH k x. destruct (decide (i = k)) as [->|Hne].
    + rewrite lookup_insert_eq. intros [= ->]. lia.
    + rewrite lookup_insert_ne by done. intros Hk. specialize (IH k x Hk). lia.
Qed.

(** Induction on a value, with the property at hand for the elements of a
    sequence and for the entries of a map. *)
Lemma value_ind' (P : value → Prop) :
  P VNil → (∀ b, P (VBool b)) → (∀ z, P (VInt z)) → (∀ z, P (VFloat z)) →
  (∀ s, P (VString s)) →
  (∀ l, Forall P l → P (VSeq l)) →
  (∀ m, map_Forall (λ _, P) m → P (VMap m)) →
  P VChan →
  ∀ v, P v.
Proof.
  intros Hnil Hbool Hint Hfloat Hstr Hseq Hmap Hchan v.
  remember (value_size v) as n eqn:Hn. revert v Hn.
  induction n as [n IH] using lt_wf_ind. intros v ->.
  destruct v as [|b|z|z|s|l|m|]; auto.
  - apply Hseq. apply Forall_forall. intros x Hx.
    by eapply IH; [apply value_size_elem|].
  - apply Hmap. intros k x Hk.
    by eapply IH; [eapply value_size_lookup|].
Qed.

Lemma fmap_Permutation_inv {A B : Type} (f : A → B) (l1 : list B) (l2 : list A) :
  l1 ≡ₚ f <$> l2 → ∃ l3, l1 = f <$> l3 ∧ l3 ≡ₚ l2.
Proof.
  intros H. remember (f <$> l2) as l2' eqn:Heq. revert l2 Heq.
  induction H as [|x l l' _ IH|x y l|l l' l'' _ IH1 _ IH2]; intros l2 Heq.
  - destruct l2; [|done]. by exists [].
  - destruct l2 as [|a l2]; [done|]. injection Heq as -> ->.
    destruct (IH l2 eq_refl) as (l3 & -> & Hl3). exists (a :: l3). split; [done|].
    by constructor.
  - destruct l2 as [|a [|b l2]]; [done..|]. injection Heq as -> -> ->.
    exists (b :: a :: l2). split; [done|]. constructor.
  - destruct (IH2 l2 Heq) as (l3 & -> & Hl3).
    destruct (IH1 l3 eq_refl) as (l4 & -> & Hl4).
    exists l4. split; [done|]. by etrans.
Qed.

Ltac norm_append :=
  repeat first [rewrite append_assoc | rewrite append_cons | rewrite append_nil].

Module json_roundtrip.
Import json.

(** *** Strings *)

Lemma parse_string_escape (c : ascii) (tail : string) :
  is_ascii c = true →
  parse_string (escape c +:+ tail) = pmap (with_char c) (parse_string tail).
Proof.
  destruct c as [b0 b1 b2 b3 b4 b5 b6 [|]]; [by destruct b0, b1, b2, b3, b4, b5, b6|].
  intros _. destruct b0, b1, b2, b3, b4, b5, b6; reflexivity.
Qed.

Lemma parse_string_escape_all (s rest : string) :
  string_forallb is_ascii s = true →
  parse_string (escape_all s +:+ dq +:+ rest) = Parsed (s, rest).
Proof.
  induction s as [|c s IH]; simpl; [done|].
  intros [Hc Hs]%andb_prop. rewrite append_assoc, parse_string_escape by done.
  by rewrite IH.
Qed.

(** *** Numbers *)

Lemma span_append (p : ascii → bool) (s rest : string) :
  string_forallb p s = true →
  match rest with String c _ => p c = false | EmptyString => True end →
  span p (s +:+ rest) = (s, rest).
Proof.
  intros Hs Hrest. induction s as [|c s IH]; simpl in *.
  - rewrite append_nil. destruct rest as [|c rest]; simpl; [done|]. by rewrite Hrest.
  - apply andb_prop in Hs as [Hc Hs]. by rewrite Hc, IH.
Qed.

Lemma string_of_uint_digits (d : Decimal.uint) :
  string_forallb is_digit (NilEmpty.string_of_uint d) = true.
Proof. induction d; simpl; auto. Qed.

Lemma to_uint_normal (n : N) :
  N.to_uint n = Decimal.D0 Decimal.Nil
  ∨ (N.to_uint n ≠ Decimal.Nil ∧ ∀ d, N.to_uint n ≠ Decimal.D0 d).
Proof.
  assert (Hnorm : N.to_uint n = Decimal.unorm (N.to_uint n)).
  { rewrite <- (DecimalN.Unsigned.to_of (N.to_uint n)).
    by rewrite DecimalN.Unsigned.of_to. }
  rewrite Hnorm. unfold Decimal.unorm.
  pose proof (nzhead_nonzero (N.to_uint n)) as Hnz.
  destruct (Decimal.nzhead (N.to_uint n)); auto; right; split; try done;
    intros d' Hd'; by apply (Hnz d').
Qed.

(** A decimal numeral is a zero, or digits the first of which is not a zero. *)
Lemma decimal_head (n : N) :
  string_forallb is_digit (decimal n) = true
  ∧ (decimal n = "0" ∨
     ∃ c s, decimal n = String c s ∧ Ascii.eqb c "0" = false ∧ is_digit c = true).
Proof.
  pose proof (string_of_uint_digits (N.to_uint n)) as Hdigits.
  split; [done|]. unfold decimal in *.
  destruct (to_uint_normal n) as [->|[Hnil Hzero]]; [by left|]. right.
  destruct (N.to_uint n) as [|d|d|d|d|d|d|d|d|d|d]; simpl in *;
    try done; try (by eexists _, _); by destruct (Hzero d).
Qed.

Lemma parse_decimal_decimal (n : N) : parse_decimal (decimal n) = Some n.
Proof.
  unfold parse_decimal, decimal.
  destruct (decimal_head n) as [_ [H0|(c & s & Hcs & _)]]; unfold decimal in *.
  - rewrite H0. rewrite <- H0. rewrite NilEmpty.usu. simpl.
    by rewrite DecimalN.Unsigned.of_to.
  - rewrite Hcs. rewrite <- Hcs. rewrite NilEmpty.usu. simpl.
    by rewrite DecimalN.Unsigned.of_to.
Qed.

(** What may follow a number: not a digit, not a fraction, not an exponent. *)
Definition ends_value (rest : string) : bool :=
  match rest with
  | EmptyString => true
  | String c _ => negb (is_digit c) && negb (string_existsb (Ascii.eqb c) ".eE")
  end.

Lemma digits_decimal (n : N) (rest : string) :
  ends_value rest = true → digits (decimal n +:+ rest) = (decimal n, rest).
Proof.
  intros Hrest. destruct (decimal_head n) as [Hdigits [->|(c & s & Hcs & Hc & _)]].
  - reflexivity.
  - unfold digits. rewrite <- (span_append is_digit (decimal n) rest); [|done|].
    + rewrite Hcs, append_cons. by rewrite Hc.
    + destruct rest as [|d rest]; [done|]. simpl in Hrest.
      apply andb_prop in Hrest as [Hd _]. by apply negb_true_iff in Hd.
Qed.

Lemma ends_value_no_fraction (rest : string) :
  ends_value rest = true → starts_fraction_or_exponent rest = false.
Proof.
  destruct rest as [|c rest]; [done|]. simpl.
  intros [_ H]%andb_prop. by apply negb_true_iff in H.
Qed.

Lemma parse_number_Itoa (z : Z) (rest : string) :
  exact_float z = true → ends_value rest = true →
  parse_number (strconv_Itoa z +:+ rest) = Parsed (VFloat z, rest).
Proof.
  intros Hz Hrest. unfold strconv_Itoa, parse_number.
  destruct (Z.ltb_spec z 0) as [Hneg|Hpos].
  - rewrite append_cons, append_nil. simpl.
    rewrite digits_decimal, parse_decimal_decimal, ends_value_no_fraction by done.
    rewrite N2Z.inj_abs_N. unfold exact_float in *.
    rewrite Z.abs_idemp, Hz. simpl.
    destruct (N.eqb_spec (Z.abs_N z) 0) as [H0|_]; [lia|].
    do 3 f_equal. lia.
  - destruct (decimal_head (Z.abs_N z)) as [_ Hhead].
    assert (Hminus : ∃ c s, decimal (Z.abs_N z) = String c s ∧ Ascii.eqb c "-" = false).
    { destruct Hhead as [->|(c & s & -> & _ & Hc)]; [by eexists _, _|].
      exists c, s. split; [done|].
      destruct (Ascii.eqb_spec c "-") as [->|]; [by vm_compute in Hc|done]. }
    destruct Hminus as (c & s & Hcs & Hc).
    rewrite Hcs, append_cons, Hc. rewrite <- append_cons, <- Hcs.
    rewrite digits_decimal, parse_decimal_decimal, ends_value_no_fraction by done.
    rewrite N2Z.inj_abs_N. unfold exact_float in *.
    rewrite Z.abs_idemp, Hz. simpl.
    do 3 f_equal. lia.
Qed.

Lemma parse_value_number (fuel : nat) (c : ascii) (s : string) :
  Ascii.eqb c "-" || is_digit c = true →
  parse_value (S fuel) (String c s) = parse_number (String c s).
Proof.
  destruct c as [b0 b1 b2 b3 b4 b5 b6 b7].
  destruct b0, b1, b2, b3, b4, b5, b6, b7; (discriminate || (intros _; reflexivity)).
Qed.

(** *** Values *)

Definition starts_value (c : ascii) : bool :=
  negb (is_json_space c) && negb (Ascii.eqb c "]").

(** The encoding of [v] exists, and the parser reads it back in front of
    any text that may follow a value. *)
Definition reads_back (v : value) : Prop :=
  ∃ s, encode v = inl s
    ∧ (∃ c s', s = String c s' ∧ starts_value c = true)
    ∧ ∀ fuel rest, (String.length s < fuel)%nat → ends_value rest = true →
        parse_value fuel (s +:+ rest) = Parsed (as_decoded v, rest).

Lemma Itoa_head (z : Z) :
  ∃ c s, strconv_Itoa z = String c s ∧ Ascii.eqb c "-" || is_digit c = true.
Proof.
  unfold strconv_Itoa. destruct (z <? 0)%Z; [by eexists _, _|].
  destruct (decimal_head (Z.abs_N z)) as [_ [->|(c & s & -> & _ & Hc)]];
    [by eexists _, _|].
  exists c, s. split; [done|]. rewrite Hc. apply orb_true_r.
Qed.

Lemma number_starts_value (c : ascii) :
  Ascii.eqb c "-" || is_digit c = true → starts_value c = true.
Proof.
  destruct c as [b0 b1 b2 b3 b4 b5 b6 b7].
  destruct b0, b1, b2, b3, b4, b5, b6, b7; (discriminate || reflexivity).
Qed.

Lemma number_reads_back (v : value) (z : Z) :
  encode v = inl (strconv_Itoa z) → as_decoded v = VFloat z →
  exact_float z = true → reads_back v.
Proof.
  intros Henc Hdec Hz. exists (strconv_Itoa z). split; [done|].
  destruct (Itoa_head z) as (c & s & Hcs & Hc). split.
  - exists c, s. split; [done|]. by apply number_starts_value.
  - intros fuel rest Hfuel Hrest. destruct fuel as [|fuel]; [lia|].
    rewrite Hdec, Hcs, append_cons, parse_value_number by done.
    rewrite <- append_cons, <- Hcs. by apply parse_number_Itoa.
Qed.

Lemma elements_read_back (l : list value) :
  Forall reads_back l → l ≠ [] →
  ∃ items, collect (encode <$> l) = inl items
    ∧ length items = length l
    ∧ (∃ c s', strings_Join items "," = String c s' ∧ starts_value c = true)
    ∧ ∀ fuel acc rest, (String.length (strings_Join items ",") + 1 < fuel)%nat →
        parse_elements fuel acc (strings_Join items "," +:+ "]" +:+ rest)
        = Parsed (VSeq (acc ++ (as_decoded <$> l))%list, rest).
Proof.
  induction l as [|x l IH]; [done|]. intros [Hx Hl]%Forall_cons _.
  destruct Hx as (s & Hs & (c & s' & Hcs & Hc) & Hparse).
  destruct l as [|y l].
  - exists [s]. simpl. rewrite Hs. do 2 (split; [done|]). split; [by exists c, s'|].
    intros fuel acc rest Hfuel. destruct fuel as [|fuel]; [lia|]. simpl.
    rewrite Hparse; [reflexivity|lia|reflexivity].
  - destruct (IH Hl) as (items & Hitems & Hlen & _ & Hrest); [done|].
    destruct items as [|s0 items]; [done|].
    exists (s :: s0 :: items).
    change (strings_Join (s :: s0 :: items) ",")
      with (s +:+ "," +:+ strings_Join (s0 :: items) ",").
    split; [|split; [|split]].
    + simpl in *. by rewrite Hs, Hitems.
    + simpl in *. by rewrite Hlen.
    + exists c, (s' +:+ "," +:+ strings_Join (s0 :: items) ","). by rewrite Hcs.
    + intros fuel acc rest Hfuel.
      remember (strings_Join (s0 :: items) ",") as more eqn:Hmore.
      rewrite !length_append in Hfuel. simpl in Hfuel.
      destruct fuel as [|fuel]; [lia|]. simpl.
      rewrite !append_assoc. rewrite Hparse; [|lia|reflexivity]. simpl.
      rewrite append_nil, Hrest by lia. by rewrite <- app_assoc.
Qed.

Lemma members_read_back (kvs : list (string * value)) :
  Forall (λ kv, string_forallb is_ascii kv.1 = true ∧ reads_back kv.2) kvs → kvs ≠ [] →
  ∃ members,
    collect (encode_member <$> ((λ kv, (kv.1, encode kv.2)) <$> kvs)) = inl members
    ∧ length members = length kvs
    ∧ (∃ s', strings_Join members "," = String DQ s')
    ∧ ∀ fuel acc rest, (String.length (strings_Join members ",") + 1 < fuel)%nat →
        parse_members fuel acc (strings_Join members "," +:+ "}" +:+ rest)
        = Parsed (VMap (insert_loop fst (λ kv, as_decoded kv.2) acc kvs), rest).
Proof.
  induction kvs as [|[k x] kvs IH]; [done|]. intros [[Hk Hx] Hkvs]%Forall_cons _.
  simpl in Hk, Hx. destruct Hx as (s & Hs & _ & Hparse).
  assert (Hmember : encode_member (k, encode x)
                    = inl (String DQ (escape_all k +:+ dq +:+ ":" +:+ s))).
  { unfold encode_member, encode_string. simpl. rewrite Hk, Hs.
    by rewrite !append_assoc. }
  remember (String DQ (escape_all k +:+ dq +:+ ":" +:+ s)) as member eqn:Hm.
  assert (Hstep : ∀ fuel acc more,
    (String.length member < fuel)%nat → ends_value more = true →
    parse_members (S fuel) acc (member +:+ more)
    = match skip_space more with
      | EmptyString => unexpected_end
      | String c rest =>
          if Ascii.eqb c ","
          then parse_members fuel (<[k := as_decoded x]> acc) rest
          else if Ascii.eqb c "}"
          then Parsed (VMap (<[k := as_decoded x]> acc), rest)
          else invalid_character c "after object key:value pair"
      end).
  { intros fuel acc more Hfuel Hmore. subst member.
    rewrite append_cons, !append_assoc. simpl.
    rewrite parse_string_escape_all by done. simpl.
    rewrite append_nil, Hparse; [done| |done].
    simpl in Hfuel. rewrite !length_append in Hfuel. simpl in Hfuel. lia. }
  destruct kvs as [|kv kvs].
  - exists [member]. simpl. rewrite Hmember. do 2 (split; [done|]).
    split; [subst member; by eexists|].
    intros fuel acc rest Hfuel. destruct fuel as [|fuel]; [lia|].
    rewrite Hstep; [reflexivity|lia|reflexivity].
  - destruct (IH Hkvs) as (members & Hmembers & Hlen & _ & Hrest); [done|].
    destruct members as [|m0 members]; [done|].
    exists (member :: m0 :: members).
    change (strings_Join (member :: m0 :: members) ",")
      with (member +:+ "," +:+ strings_Join (m0 :: members) ",").
    split; [|split; [|split]].
    + change (collect (encode_member (k, encode x)
                :: (encode_member <$> ((λ kv, (kv.1, encode kv.2)) <$> kv :: kvs)))
              = inl (member :: m0 :: members)).
      simpl. simpl in Hmembers. by rewrite Hmember, Hmembers.
    + simpl in *. by rewrite Hlen.
    + subst member. by eexists.
    + intros fuel acc rest Hfuel.
      remember (strings_Join (m0 :: members) ",") as more eqn:Hmore.
      rewrite !length_append in Hfuel. simpl in Hfuel.
      destruct fuel as [|fuel]; [lia|].
      rewrite !append_assoc, Hstep; [|lia|reflexivity]. simpl.
      rewrite append_nil, Hrest by lia. reflexivity.
Qed.

(** Storing the members one after the other rebuilds the map. *)
Lemma insert_loop_map_to_list {A B : Type} (g : A → B) (m : gmap string A)
  (kvs : list (string * A)) :
  kvs ≡ₚ map_to_list m →
  insert_loop fst (λ kv, g kv.2) ∅ kvs = g <$> m.
Proof.
  intros Hperm. apply map_eq. intros k. rewrite lookup_fmap.
  assert (Hnd : NoDup (kvs.*1)).
  { rewrite Hperm. apply NoDup_fst_map_to_list. }
  destruct (m !! k) as [x|] eqn:Hk; simpl.
  - assert (Hin : (k, x) ∈ kvs) by (rewrite Hperm; by apply elem_of_map_to_list).
    apply list_elem_of_split in Hin as (l1 & l2 & ->).
    apply (insert_loop_last fst (λ kv, g kv.2) ∅ l1 (k, x) l2).
    apply Forall_forall. intros [k' x'] Hin' Hkey. simpl in Hkey. subst k'.
    rewrite fmap_app, fmap_cons in Hnd.
    apply NoDup_app in Hnd as (_ & _ & Hnd). apply NoDup_cons in Hnd as [Hnotin _].
    apply Hnotin. apply list_elem_of_fmap. by exists (k, x').
  - destruct (insert_loop fst (λ kv, g kv.2) ∅ kvs !! k) as [y|] eqn:Hy; [|done].
    apply insert_loop_lookup in Hy as [Hy|([k' x'] & Hin & Hkey & _)]; [done|].
    simpl in Hkey. subst k'. rewrite Hperm in Hin.
    apply elem_of_map_to_list in Hin. congruence.
Qed.

Lemma encode_reads_back (v : value) : json_value v → reads_back v.
Proof.
  induction v as [|b|z|z|s|l IH|m IH|] using value_ind';
    intros Hv; inversion Hv as [| |? Hz|? Hz|? Hs|? Hl|? Hm]; subst.
  - exists "null". split; [done|]. split; [by eexists _, _|].
    intros [|fuel] rest Hfuel _; [simpl in Hfuel; lia|reflexivity].
  - destruct b.
    + exists "true". split; [done|]. split; [by eexists _, _|].
      intros [|fuel] rest Hfuel _; [simpl in Hfuel; lia|reflexivity].
    + exists "false". split; [done|]. split; [by eexists _, _|].
      intros [|fuel] rest Hfuel _; [simpl in Hfuel; lia|reflexivity].
  - by apply (number_reads_back _ z).
  - apply (number_reads_back _ z); [|done..]. simpl. by rewrite Hz.
  - exists (dq +:+ escape_all s +:+ dq). split; [|split].
    + simpl. unfold encode_string. by rewrite Hs.
    + by eexists _, _.
    + intros [|fuel] rest Hfuel _; [simpl in Hfuel; lia|].
      unfold dq at 1. norm_append. simpl.
      by rewrite parse_string_escape_all.
  - assert (Hall : Forall reads_back l).
    { apply Forall_forall. intros x Hx.
      by apply (proj1 (Forall_forall _ _) IH x Hx), (proj1 (Forall_forall _ _) Hl x Hx). }
    destruct l as [|x l].
    + exists "[]". split; [done|]. split; [by eexists _, _|].
      intros [|fuel] rest Hfuel _; [simpl in Hfuel; lia|reflexivity].
    + destruct (elements_read_back (x :: l) Hall) as
        (items & Hitems & _ & (c & s' & Hcs & Hc) & Hparse); [done|].
      exists ("[" +:+ strings_Join items "," +:+ "]"). split; [|split].
      * change (encode (VSeq (x :: l)))
          with (match collect (encode <$> x :: l) with
                | inl items => inl ("[" +:+ strings_Join items "," +:+ "]")
                | inr e => inr e
                end).
        by rewrite Hitems.
      * by eexists _, _.
      * intros [|fuel] rest Hfuel _; [simpl in Hfuel; lia|].
        rewrite append_cons, append_nil in Hfuel. simpl in Hfuel.
        rewrite length_append in Hfuel. simpl in Hfuel.
        specialize (Hparse fuel [] rest).
        rewrite append_cons, append_nil, append_cons, !append_assoc.
        rewrite Hcs in *.
        apply andb_prop in Hc as [Hspace Hbracket].
        apply negb_true_iff in Hspace, Hbracket.
        rewrite append_cons. simpl. rewrite Hspace, Hbracket. rewrite <- append_cons.
        apply Hparse. lia.
  - destruct (fmap_Permutation_inv (prod_map id encode)
                (merge_sort key_le (map_to_list (encode <$> m))) (map_to_list m))
      as (kvs & Hsv & Hkvs).
    { rewrite merge_sort_Permutation. by rewrite map_to_list_fmap. }
    assert (Hall : Forall (λ kv, string_forallb is_ascii kv.1 = true ∧ reads_back kv.2) kvs).
    { apply Forall_forall. intros [k x] Hin. rewrite Hkvs in Hin.
      apply elem_of_map_to_list in Hin. destruct (Hm k x Hin) as [Hk Hx].
      split; [done|]. by apply (IH k x Hin). }
    assert (Henc : encode (VMap m)
                   = match collect (encode_member <$> (prod_map id encode <$> kvs)) with
                     | inl members => inl ("{" +:+ strings_Join members "," +:+ "}")
                     | inr e => inr e
                     end).
    { by rewrite <- Hsv. }
    destruct kvs as [|kv kvs].
    + apply Permutation_nil_l in Hkvs. symmetry in Hkvs.
      apply map_to_list_empty_iff in Hkvs. subst m.
      exists "{}". split; [done|]. split; [by eexists _, _|].
      intros [|fuel] rest Hfuel _; [simpl in Hfuel; lia|].
      simpl. by rewrite fmap_empty.
    + destruct (members_read_back (kv :: kvs) Hall) as
        (members & Hmembers & _ & (s' & Hhead) & Hparse); [done|].
      exists ("{" +:+ strings_Join members "," +:+ "}"). split; [|split].
      * rewrite Henc.
        change (prod_map id encode <$> kv :: kvs)
          with ((λ kv, (kv.1, encode kv.2)) <$> kv :: kvs).
        by rewrite Hmembers.
      * by eexists _, _.
      * intros [|fuel] rest Hfuel _; [simpl in Hfuel; lia|].
        rewrite append_cons, append_nil in Hfuel. simpl in Hfuel.
        rewrite length_append in Hfuel. simpl in Hfuel.
        specialize (Hparse fuel ∅ rest).
        rewrite append_cons, append_nil, append_cons, !append_assoc.
        rewrite Hhead in *.
        rewrite append_cons. simpl. rewrite <- append_cons. rewrite Hparse by lia.
        by rewrite (insert_loop_map_to_list as_decoded m).
Qed.

(** [Unmarshal] after [Marshal]: the parser returns the decoded form of
    the value, which is then stored into the map. *)
Lemma Unmarshal_Marshal (v : value) (out : gomap value) :
  json_value v →
  ∃ data, Marshal v = Done (data, None)
          ∧ Unmarshal data out = Done (store (as_decoded v) out).
Proof.
  intros Hv. destruct (encode_reads_back v Hv) as (s & Hs & _ & Hparse).
  exists s. unfold Marshal, Unmarshal, parse. rewrite Hs. split; [done|].
  specialize (Hparse (S (String.length s)) "").
  rewrite append_empty_r in Hparse. by rewrite Hparse by (lia || done).
Qed.
End json_roundtrip.

(** * The claims *)

(** ** Failure of the encoders *)

(** C1.  When the TOML encoder fails, [ToToml] returns the description of the
    error as its result; when the YAML or the JSON encoder fails, [ToYaml] and
    [ToJson] return the empty string. *)
Theorem ToToml_failure_is_its_result `{Codecs} (v : value) :
  (∀ b err, toml_Encode v = Done (b, Some err) → ToToml v = Done (Error err))
  ∧ (∀ data err, yaml_Marshal v = Done (data, Some err) → ToYaml v = Done "")
  ∧ (∀ data err, json_Marshal v = Done (data, Some err) → ToJson v = Done "").
Proof.
  unfold ToToml, ToYaml, ToJson.
  split; [|split]; intros ? ? Hcall; by rewrite Hcall.
Qed.

(** A scalar has no TOML form and a channel has no JSON form: the first
    yields the text of the TOML error, the second the empty string. *)
Lemma ToToml_failure_is_its_result_witness :
  ToToml (VInt 5) = Done "toml: top-level values must be Go maps or structs"
  ∧ ToJson VChan = Done "".
Proof.
  split.
  - exact (proj1 (ToToml_failure_is_its_result (VInt 5)) "" toml.errNoKey eq_refl).
  - exact (proj2 (proj2 (ToToml_failure_is_its_result VChan)) ""
             (json_UnsupportedTypeError "chan int") eq_refl).
Defined.

(** ** The nil collection *)

(** C3.  On the [nil] collection [AsConfig] and [AsSecrets] return the empty
    string; they return normally. *)
Theorem nil_collection_gives_empty_string `{Codecs} (ord : range_order) :
  AsConfig ord None = Done "" ∧ AsSecrets ord None = Done "".
Proof. split; reflexivity. Qed.

(** ** [AsSecrets] *)

(** C4.  On a collection that is not [nil], [AsSecrets] is the YAML of a map
    whose keys are the base names of the collection's names and whose values
    are the Base64 encodings of contents filed under a name with that base
    name; where no other name shares the base name, it is the encoding of
    that entry's content.  For [{s.txt: hello}] the map is
    [{s.txt: aGVsbG8=}], and the YAML reads back as that map. *)
Theorem AsSecrets_is_yaml_of_base64_map :
  (∀ `{Codecs} (ord : range_order) (f : gmap string string),
     let m := AsSecrets_range (range ord f) in
     AsSecrets ord (Some f) = ToYaml (of_strings m)
     ∧ (∀ b, b ∈ dom m ↔ ∃ k, k ∈ dom f ∧ filepath_Base k = b)
     ∧ (∀ b v, m !! b = Some v →
          ∃ k c, f !! k = Some c ∧ filepath_Base k = b ∧ v = base64_EncodeToString c)
     ∧ (∀ k c, f !! k = Some c →
          (∀ k', k' ∈ dom f → filepath_Base k' = filepath_Base k → k' = k) →
          m !! filepath_Base k = Some (base64_EncodeToString c)))
  ∧ (∀ `{Codecs} (ord : range_order),
       AsSecrets ord (Some {["s.txt" := "hello"]})
       = ToYaml (of_strings {["s.txt" := "aGVsbG8="]}))
  ∧ (∀ ord : range_order,
       AsSecrets ord (Some {["s.txt" := "hello"]}) = Done ("s.txt: aGVsbG8=" +:+ nl)
       ∧ FromYaml ("s.txt: aGVsbG8=" +:+ nl)
         = Done (Some {["s.txt" := VString "aGVsbG8="]})).
Proof.
  split; [|split].
  - intros ?? ord f m. subst m. rewrite AsSecrets_range_loop.
    split; [reflexivity|]. split; [|split].
    + intros b. rewrite insert_loop_range_dom. split.
      * intros (k & c & Hk & Hb). exists k. split; [|done]. apply elem_of_dom. eauto.
      * intros (k & [c Hk]%elem_of_dom & Hb). eauto.
    + intros b v [Hb|([k c] & Hin & Hb & Hv)]%insert_loop_lookup; [done|].
      exists k, c. by apply range_elem_of in Hin.
    + intros k c Hk Hinj.
      apply (insert_loop_range_injective (λ kv, filepath_Base kv.1)
               (λ kv, base64_EncodeToString kv.2) ord f k c Hk).
      intros k' c' Hk' Hb. apply Hinj; [|done]. apply elem_of_dom. eauto.
  - intros ?? ord. unfold AsSecrets, AsSecrets_range. by rewrite range_singleton.
  - intros ord. unfold AsSecrets, AsSecrets_range. rewrite range_singleton.
    split; vm_compute; reflexivity.
Qed.

(** ** [AsConfig] *)

(** C5.  On a collection that is not [nil], [AsConfig] is the YAML of a new
    map whose keys are the base names of the collection's names and whose
    values are contents filed under a name with that base name: among the
    names that share a base name, the one visited last.  Which one that is
    depends on the order of the visit.  For [{cfg/app.yaml: v: 1}] the output
    reads back as the map with key [app.yaml] and value [v: 1]. *)
Theorem AsConfig_is_yaml_of_base_name_map :
  (∀ `{Codecs} (ord : range_order) (f : gmap string string),
     let m := AsConfig_range (range ord f) in
     AsConfig ord (Some f) = ToYaml (of_strings m)
     ∧ (∀ b, b ∈ dom m ↔ ∃ k, k ∈ dom f ∧ filepath_Base k = b)
     ∧ (∀ b v, m !! b = Some v → ∃ k, f !! k = Some v ∧ filepath_Base k = b)
     ∧ (∀ l1 k c l2, range ord f = (l1 ++ (k, c) :: l2)%list →
          Forall (λ kv, filepath_Base kv.1 ≠ filepath_Base k) l2 →
          m !! filepath_Base k = Some c))
  ∧ (let f : gmap string string := {["a/one.txt" := "X"; "b/one.txt" := "Y"]} in
     AsConfig_range (range stored_order f) = {["one.txt" := "Y"]}
     ∧ AsConfig_range (range reversed_order f) = {["one.txt" := "X"]})
  ∧ (∀ ord : range_order,
       AsConfig ord (Some {["cfg/app.yaml" := "v: 1"]}) = Done ("app.yaml: 'v: 1'" +:+ nl)
       ∧ FromYaml ("app.yaml: 'v: 1'" +:+ nl)
         = Done (Some {["app.yaml" := VString "v: 1"]})).
Proof.
  split; [|split].
  - intros ?? ord f m. subst m. rewrite AsConfig_range_loop.
    split; [reflexivity|]. split; [|split].
    + intros b. rewrite insert_loop_range_dom. split.
      * intros (k & c & Hk & Hb). exists k. split; [|done]. apply elem_of_dom. eauto.
      * intros (k & [c Hk]%elem_of_dom & Hb). eauto.
    + intros b v [Hb|([k c] & Hin & Hb & Hv)]%insert_loop_lookup; [done|].
      simpl in *. subst. exists k. by apply range_elem_of in Hin.
    + intros l1 k c l2 -> Hlast.
      by apply (insert_loop_last (λ kv, filepath_Base kv.1) (λ kv, kv.2) ∅ l1 (k, c) l2).
  - split; vm_compute; reflexivity.
  - intros ord. unfold AsConfig, AsConfig_range. rewrite range_singleton.
    split; vm_compute; reflexivity.
Qed.

(** ** The YAML round trip of a string map *)

(** C6.  [FromYaml(ToYaml(m))] for the string map [m = {k: v}] is the map
    [{k: v}], which has no entry [Error]. *)
Theorem FromYaml_ToYaml_k_v :
  ToYaml (of_strings {["k" := "v"]}) = Done ("k: v" +:+ nl)
  ∧ (do s <- ToYaml (of_strings {["k" := "v"]}); FromYaml s)
    = Done (Some {["k" := VString "v"]})
  ∧ ({["k" := VString "v"]} : gmap string value) !! "Error" = None.
Proof. repeat split; vm_compute; reflexivity. Qed.

(** ** Zero matches *)

(** C8.  When the pattern is well formed and matches no file
    ([filepath.Glob] returns no path and no error), [Glob] returns an empty
    collection that is not [nil]; the process does not exit. *)
Theorem Glob_without_match_is_empty `{FileSystem} (dir pattern : string) :
  filepath_Glob (filepath_Join dir pattern) = ([], None) →
  Glob dir pattern = Done (Some ∅).
Proof. intros Hglob. unfold Glob. by rewrite Hglob. Qed.

Lemma Glob_without_match_is_empty_witness :
  @Glob go_errors no_files "conf" "*.yaml" = Done (Some ∅).
Proof. exact (@Glob_without_match_is_empty go_errors no_files "conf" "*.yaml" eq_refl). Defined.

(** ** The empty collection *)

(** C9.  On the empty collection that is not [nil], [AsConfig] and
    [AsSecrets] return the YAML of the empty map, the text [{}] and a line
    feed, and not the empty string, which they return on the [nil]
    collection: the two are told apart by the result. *)
Theorem empty_collection_differs_from_nil :
  (∀ `{Codecs} (ord : range_order),
     AsConfig ord (Some ∅) = ToYaml (VMap ∅) ∧ AsSecrets ord (Some ∅) = ToYaml (VMap ∅))
  ∧ ToYaml (VMap ∅) = Done ("{}" +:+ nl)
  ∧ (∀ ord : range_order,
       AsConfig ord (Some ∅) = Done ("{}" +:+ nl)
       ∧ AsSecrets ord (Some ∅) = Done ("{}" +:+ nl)
       ∧ AsConfig ord None = Done "" ∧ AsSecrets ord None = Done ""
       ∧ AsConfig ord (Some ∅) ≠ AsConfig ord None
       ∧ AsSecrets ord (Some ∅) ≠ AsSecrets ord None).
Proof.
  assert (Hgen : ∀ `{Codecs} (ord : range_order),
     AsConfig ord (Some ∅) = ToYaml (VMap ∅) ∧ AsSecrets ord (Some ∅) = ToYaml (VMap ∅)).
  { intros ?? ord. unfold AsConfig, AsSecrets, AsConfig_range, AsSecrets_range.
    rewrite range_empty. simpl. unfold of_strings. by rewrite fmap_empty. }
  split; [exact Hgen|]. split; [reflexivity|]. intros ord.
  destruct (Hgen _ go_codecs ord) as [-> ->]. by repeat split.
Qed.

(** ** An [Error] key in a text that parses *)

(** C10.  The YAML text [Error: msg] and the JSON object with the one member
    [Error] parse without error, and the maps returned by [FromYaml] and
    [FromJson] hold the key [Error]: that key in a result does not tell that
    parsing failed. *)
Theorem Error_key_of_a_valid_text :
  let json_text := "{" +:+ dq +:+ "Error" +:+ dq +:+ ":" +:+ dq +:+ "msg" +:+ dq +:+ "}" in
  yaml_Unmarshal "Error: msg" (Some ∅) = Done (Some {["Error" := VString "msg"]}, None)
  ∧ FromYaml "Error: msg" = Done (Some {["Error" := VString "msg"]})
  ∧ json_Unmarshal json_text (Some ∅) = Done (Some {["Error" := VString "msg"]}, None)
  ∧ FromJson json_text = Done (Some {["Error" := VString "msg"]})
  ∧ ({["Error" := VString "msg"]} : gmap string value) !! "Error" = Some (VString "msg").
Proof. repeat split; vm_compute; reflexivity. Qed.

(** ** Failure of the decoders *)


(** The map with [Error] set has one entry exactly when every key of the
    map is [Error]. *)
Lemma size_with_Error (m : gmap string value) (x : value) :
  size (<["Error" := x]> m) = 1 ↔ ∀ k, is_Some (m !! k) → k = "Error".
Proof.
  rewrite <- insert_delete_eq.
  rewrite map_size_insert_None by apply lookup_delete_eq.
  split.
  - intros Hsize k [y Hk]. destruct (decide (k = "Error")) as [|Hne]; [done|].
    assert (Hempty : delete "Error" m = ∅) by (apply map_size_empty_iff; lia).
    assert (Hin : delete "Error" m !! k = Some y) by by rewrite lookup_delete_ne.
    rewrite Hempty in Hin. by rewrite lookup_empty in Hin.
  - intros Hkeys. f_equal. apply map_size_empty_iff, map_empty. intros k.
    destruct (decide (k = "Error")) as [->|Hne]; [apply lookup_delete_eq|].
    rewrite lookup_delete_ne by done.
    destruct (m !! k) as [y|] eqn:Hk; [|done].
    destruct Hne. apply Hkeys. by exists y.
Qed.



(** ** The JSON round trip *)

(** The [Value] field of the type error for a JSON value that is not an
    object. *)
Definition json_kind (v : value) : option string :=
  match v with
  | VBool _ => Some "bool"
  | VInt _ | VFloat _ => Some "number"
  | VString _ => Some "string"
  | VSeq _ => Some "array"
  | _ => None
  end.

Definition json_type_error (kind : string) : string :=
  "json: cannot unmarshal " +:+ kind +:+ " into Go value of type map[string]interface {}".



